(** * pynexml/characters.py: discrete character-state alphabets

    A shallow embedding of the state elements, the alphabet sets, the DNA
    alphabet and the characters block of [pynexml/characters.py], and the
    properties of fundamental-state resolution and of state lookup. *)

From stdpp Require Import gmap strings list sets.

(** ** Python values

    An attribute of a state (its identifier, label, symbol or token) holds
    either [None] or a [str]. *)
Abbreviation pyval := (option string).

(** Truth value of an attribute in [if state.symbol]: [None] and the empty
    string are false, every other string is true. *)
Definition truth (v : pyval) : bool :=
  match v with
  | Some (String _ _) => true
  | Some EmptyString => false
  | None => false
  end.

(** Objects are compared and hashed by identity: a state is known by the
    address of its object. *)
Abbreviation addr := nat.

(** ** Exceptions *)

(** The attribute names [get_states] hands to [get_state]. *)
Inductive attr : Set := attr_elem_id | attr_symbol | attr_token.

(** The source raises the plain [Exception] with a message; the messages
    tell the exceptions apart.  The specification calls the first NotFound
    and the second InvalidArgument. *)
Inductive exn : Type :=
  | StateNotDefined (attr_name : attr) (value : pyval)
      (* Exception("State with %s value of '%s' not defined") *)
  | MustSpecify
      (* Exception("Must specify ids, symbols or tokens") *)
  | RecursionDepthExceeded
      (* the interpreter ran out of stack in a recursive call *)
  | KeyError (key : nat)
      (* dict lookup of a key that is not there *)
  | AttributeError (name : string).
      (* 'DnaStateAlphabetSet' object has no attribute '%s' *)

Inductive result (A : Type) : Type :=
  | Return (a : A)
  | Raise (e : exn).
Arguments Return {A} a.
Arguments Raise {A} e.

#[global] Instance result_ret : MRet result := fun _ a => Return a.
#[global] Instance result_bind : MBind result := fun _ _ f m =>
  match m with
  | Return a => f a
  | Raise e => Raise e
  end.

(** ** DiscreteStateAlphabetElement

    Modelled from the spec: the class derives from [base.IdTagged], which
    is outside the sources; it is the base entity with an identifier and a
    label, and its constructor is taken to keep the two values it is given
    (the fields [elem_id] and [label]). *)

Inductive multistate_enum : Set :=
  | SINGLE_STATE       (* 0 *)
  | AMBIGUOUS_STATE    (* 1 *)
  | POLYMORPHIC_STATE. (* 2 *)

Record DiscreteStateAlphabetElement : Type := Element {
  elem_id : pyval;
  label : pyval;
  symbol : pyval;
  token : pyval;
  multistate : multistate_enum;
  member_states : option (list addr)   (* None, or a list of states *)
}.

(** The state built by the constructor's defaults. *)
Definition default_element : DiscreteStateAlphabetElement :=
  Element None None None None SINGLE_STATE None.

#[global] Instance element_inhabited : Inhabited DiscreteStateAlphabetElement :=
  populate default_element.

(** The heap holds the state objects; an address is an index into it and a
    new object takes the next free index. *)
Abbreviation heap := (list DiscreteStateAlphabetElement).

Definition new (h : heap) (e : DiscreteStateAlphabetElement) : heap * addr :=
  (h ++ [e], length h).

(** ** Iteration over a Python set

    [for state in a_set] visits every element once, in an order the
    language does not fix.  The embedding is parametric in that order: every
    property holds for every order, [canonical_order] is one of them. *)
Class IterationOrder : Type := {
  iter : gset addr → list addr;
  iter_elements : ∀ X, iter X ≡ₚ elements X
}.

#[global] Instance canonical_order : IterationOrder :=
  {| iter := elements; iter_elements := fun X => reflexivity (elements X) |}.

(** [for state in self.member_states: states.update(f(state))] *)
Fixpoint update_loop (f : addr → result (gset addr)) (ms : list addr)
    (states : gset addr) : result (gset addr) :=
  match ms with
  | [] => Return states
  | state :: rest => fs ← f state; update_loop f rest (states ∪ fs)
  end.

(** [depth] is the number of nested calls the interpreter still allows; a
    call that has none left raises, which is what the unbounded recursion on
    a cyclic member-state graph ends in. *)
Fixpoint _get_fundamental_states (depth : nat) (h : heap) (self : addr)
    : result (gset addr) :=
  match depth with
  | 0 => Raise RecursionDepthExceeded
  | S depth' =>
      match member_states (h !!! self) with
      | None => Return {[ self ]}
      | Some ms => update_loop (_get_fundamental_states depth' h) ms ∅
      end
  end.

Section projections.
  Context `{IterationOrder}.

(** [set([state.elem_id for state in self._get_fundamental_states()])] *)
Definition _get_fundamental_ids (depth : nat) (h : heap) (self : addr)
    : result (gset pyval) :=
  states ← _get_fundamental_states depth h self;
  Return (list_to_set ((λ state, elem_id (h !!! state)) <$> iter states)).

(** [set([state.symbol for state in ... if state.symbol])] *)
Definition _get_fundamental_symbols (depth : nat) (h : heap) (self : addr)
    : result (gset pyval) :=
  states ← _get_fundamental_states depth h self;
  Return (list_to_set ((λ state, symbol (h !!! state)) <$>
            filter (λ state, truth (symbol (h !!! state)) = true) (iter states))).

(** [set([state.token for state in ... if state.token])] *)
Definition _get_fundamental_tokens (depth : nat) (h : heap) (self : addr)
    : result (gset pyval) :=
  states ← _get_fundamental_states depth h self;
  Return (list_to_set ((λ state, token (h !!! state)) <$>
            filter (λ state, truth (token (h !!! state)) = true) (iter states))).
End projections.

(** ** DiscreteStateAlphabetSet

    The class derives from [base.IdTagged] and from the built-in [set]: it
    carries an identifier and a label, and its elements are the states. *)
Record DiscreteStateAlphabetSet : Type := AlphabetSet {
  set_elem_id : pyval;
  set_label : pyval;
  states : gset addr
}.

Definition DiscreteStateAlphabetSet__init__ (elem_id label : pyval)
    : DiscreteStateAlphabetSet :=
  AlphabetSet elem_id label ∅.

(** The inherited [set.add]: it compares by identity, never raises, and
    leaves the set as it is when the object is already an element. *)
Definition add (self : DiscreteStateAlphabetSet) (state : addr)
    : result DiscreteStateAlphabetSet :=
  Return (AlphabetSet (set_elem_id self) (set_label self) ({[ state ]} ∪ states self)).

Definition getattr (state : DiscreteStateAlphabetElement) (attr_name : attr) : pyval :=
  match attr_name with
  | attr_elem_id => elem_id state
  | attr_symbol => symbol state
  | attr_token => token state
  end.

Inductive fundamental_attr : Set :=
  | attr_fundamental_ids
  | attr_fundamental_symbols
  | attr_fundamental_tokens.

(** The argument of [match_state]: a list, a string or a set. *)
Inductive pyvalues : Type :=
  | PyList (l : list pyval)
  | PyStr (s : string)
  | PySet (X : gset pyval).

(** [[ch for ch in values]] *)
Fixpoint chars (s : string) : list pyval :=
  match s with
  | EmptyString => []
  | String ch rest => Some (String ch EmptyString) :: chars rest
  end.

(** [if isinstance(values, list): values = set(values)
     elif isinstance(values, str): values = set([ch for ch in values])] *)
Definition as_value_set (values : pyvalues) : gset pyval :=
  match values with
  | PyList l => list_to_set l
  | PyStr s => list_to_set (chars s)
  | PySet X => X
  end.

(** The chain [if elem_ids is not None ... elif symbols is not None ...
    elif tokens is not None ... else raise]. *)
Definition choose {A B : Type} (a_ids a_symbols a_tokens : A)
    (elem_ids symbols tokens : option B) : result (A * B) :=
  match elem_ids, symbols, tokens with
  | Some values, _, _ => Return (a_ids, values)
  | None, Some values, _ => Return (a_symbols, values)
  | None, None, Some values => Return (a_tokens, values)
  | None, None, None => Raise MustSpecify
  end.

Section lookup.
  Context `{IterationOrder}.

(** [for state in self: if getattr(state, attr_name) == value: return state]
    and the [raise] after the loop. *)
Fixpoint get_state_loop (h : heap) (attr_name : attr) (value : pyval)
    (l : list addr) : result addr :=
  match l with
  | [] => Raise (StateNotDefined attr_name value)
  | state :: rest =>
      if bool_decide (getattr (h !!! state) attr_name = value)
      then Return state
      else get_state_loop h attr_name value rest
  end.

Definition get_state (h : heap) (self : DiscreteStateAlphabetSet)
    (attr_name : attr) (value : pyval) : result addr :=
  get_state_loop h attr_name value (iter (states self)).

(** [for value in values: states.append(self.get_state(...))] *)
Fixpoint get_states_loop (h : heap) (self : DiscreteStateAlphabetSet)
    (attr_name : attr) (values : list pyval) (acc : list addr)
    : result (list addr) :=
  match values with
  | [] => Return acc
  | value :: rest =>
      state ← get_state h self attr_name value;
      get_states_loop h self attr_name rest (acc ++ [state])
  end.

Definition get_states (h : heap) (self : DiscreteStateAlphabetSet)
    (elem_ids symbols tokens : option (list pyval)) : result (list addr) :=
  '(attr_name, values) ← choose attr_elem_id attr_symbol attr_token
                                elem_ids symbols tokens;
  get_states_loop h self attr_name values [].

(** The properties [fundamental_ids], [fundamental_symbols] and
    [fundamental_tokens], read through [getattr]. *)
Definition getattr_fundamental (depth : nat) (h : heap) (state : addr)
    (attr_name : fundamental_attr) : result (gset pyval) :=
  match attr_name with
  | attr_fundamental_ids => _get_fundamental_ids depth h state
  | attr_fundamental_symbols => _get_fundamental_symbols depth h state
  | attr_fundamental_tokens => _get_fundamental_tokens depth h state
  end.

(** [for state in self: if getattr(state, attr_name) == values: return state]
    and the [return None] after the loop. *)
Fixpoint match_state_loop (depth : nat) (h : heap) (attr_name : fundamental_attr)
    (values : gset pyval) (l : list addr) : result (option addr) :=
  match l with
  | [] => Return None
  | state :: rest =>
      fs ← getattr_fundamental depth h state attr_name;
      if bool_decide (fs = values)
      then Return (Some state)
      else match_state_loop depth h attr_name values rest
  end.

Definition match_state (depth : nat) (h : heap) (self : DiscreteStateAlphabetSet)
    (elem_ids symbols tokens : option pyvalues) : result (option addr) :=
  '(attr_name, values) ← choose attr_fundamental_ids attr_fundamental_symbols
                                attr_fundamental_tokens elem_ids symbols tokens;
  match_state_loop depth h attr_name (as_value_set values) (iter (states self)).
End lookup.

(** ** DnaStateAlphabetSet *)

Definition single (s : string) : DiscreteStateAlphabetElement :=
  Element None None (Some s) None SINGLE_STATE None.

Definition ambiguous (s : string) (ms : list addr) : DiscreteStateAlphabetElement :=
  Element None None (Some s) None AMBIGUOUS_STATE (Some ms).

Definition syms (l : list string) : option (list pyval) := Some (Some <$> l).

(** A method of an alphabet that takes a state.  The class of an object
    gives its methods by name. *)
Abbreviation method :=
  (DiscreteStateAlphabetSet → addr → result DiscreteStateAlphabetSet).

(** Modelled from the spec: the methods of a [DnaStateAlphabetSet] object
    that insert a state.  The classes of the file define none, the built-in
    [set] gives [add] and has no [append], and [base.IdTagged], which is
    outside the sources, is the base entity with an identifier and a label:
    it has no method that takes a state. *)
Definition DnaStateAlphabetSet_methods : gmap string method :=
  {[ "add"%string := add ]}.

(** [self.name]: the attribute is looked up in the class of the object, and
    a name that the class does not have raises [AttributeError]. *)
Definition getattr_method (methods : gmap string method) (name : string)
    : result method :=
  match methods !! name with
  | Some m => Return m
  | None => Raise (AttributeError name)
  end.

(** [self.append(DiscreteStateAlphabetElement(...))]: the method is looked
    up, then the argument is evaluated and the new state is built, then the
    method is called. *)
Definition call_append (methods : gmap string method) (h : heap)
    (self : DiscreteStateAlphabetSet)
    (argument : result DiscreteStateAlphabetElement)
    : result (heap * DiscreteStateAlphabetSet) :=
  append ← getattr_method methods "append";
  e ← argument;
  let '(h, state) := new h e in
  self ← append self state;
  Return (h, self).

Section dna.
  Context `{IterationOrder}.

(** [methods] are the methods of the class of [self]: those of
    [DnaStateAlphabetSet_methods] for [DnaStateAlphabetSet()], and those of
    the subclass when the constructor runs for an object of a subclass. *)
Definition DnaStateAlphabetSet__init__ (methods : gmap string method) (h : heap)
    (elem_id label : pyval) : result (heap * DiscreteStateAlphabetSet) :=
  let self := DiscreteStateAlphabetSet__init__ elem_id label in
  '(h, self) ← call_append methods h self (Return (single "A"));
  '(h, self) ← call_append methods h self (Return (single "C"));
  '(h, self) ← call_append methods h self (Return (single "G"));
  '(h, self) ← call_append methods h self (Return (single "T"));
  '(h, self) ← call_append methods h self (Return (single "-"));
  '(h, self) ← call_append methods h self
    (ms ← get_states h self None (syms ["A"; "C"; "G"; "T"; "-"]) None;
     Return (ambiguous "?" ms));
  '(h, self) ← call_append methods h self
    (ms ← get_states h self None (syms ["A"; "C"; "G"; "T"]) None;
     Return (ambiguous "N" ms));
  '(h, self) ← call_append methods h self
    (ms ← get_states h self None (syms ["A"; "C"]) None;
     Return (ambiguous "M" ms));
  '(h, self) ← call_append methods h self
    (ms ← get_states h self None (syms ["A"; "G"]) None;
     Return (ambiguous "R" ms));
  '(h, self) ← call_append methods h self
    (ms ← get_states h self None (syms ["A"; "T"]) None;
     Return (ambiguous "W" ms));
  '(h, self) ← call_append methods h self
    (ms ← get_states h self None (syms ["C"; "G"]) None;
     Return (ambiguous "S" ms));
  '(h, self) ← call_append methods h self
    (ms ← get_states h self None (syms ["C"; "T"]) None;
     Return (ambiguous "Y" ms));
  '(h, self) ← call_append methods h self
    (ms ← get_states h self None (syms ["G"; "T"]) None;
     Return (ambiguous "K" ms));
  '(h, self) ← call_append methods h self
    (ms ← get_states h self None (syms ["A"; "C"; "G"]) None;
     Return (ambiguous "V" ms));
  '(h, self) ← call_append methods h self
    (ms ← get_states h self None (syms ["A"; "C"; "T"]) None;
     Return (ambiguous "H" ms));
  '(h, self) ← call_append methods h self
    (ms ← get_states h self None (syms ["A"; "G"; "T"]) None;
     Return (ambiguous "D" ms));
  '(h, self) ← call_append methods h self
    (ms ← get_states h self None (syms ["C"; "G"; "T"]) None;
     Return (ambiguous "B" ms));
  Return (h, self).
End dna.

(** ** CharactersBlock

    The block derives from the built-in [dict]: a row is stored with
    [block[taxon] = row] and read with [block[taxon]]; the class defines no
    method of its own besides the constructor.  A taxon is known by the
    address of its object.  The taxa linkage of [taxa.TaxaLinked] is outside
    the sources and plays no part here. *)
Record Character : Type := {
  character_elem_id : pyval;
  character_label : pyval;
  state_alphabet_set : option DiscreteStateAlphabetSet
}.

Record CharactersBlock : Type := Block {
  rows : gmap nat (list addr);
  state_alphabet_sets : list DiscreteStateAlphabetSet;
  characters : list Character
}.

Definition CharactersBlock__init__ (args : gmap nat (list addr)) : CharactersBlock :=
  Block args [] [].

(** [dict.__setitem__] *)
Definition setitem (self : CharactersBlock) (taxon : nat) (row : list addr)
    : result CharactersBlock :=
  Return (Block (<[taxon := row]> (rows self)) (state_alphabet_sets self) (characters self)).

(** [dict.__getitem__] *)
Definition getitem (self : CharactersBlock) (taxon : nat) : result (list addr) :=
  match rows self !! taxon with
  | Some row => Return row
  | None => Raise (KeyError taxon)
  end.

(** ** Vocabulary of the properties *)

#[global] Instance attr_eq_dec : EqDecision attr.
Proof. solve_decision. Defined.
#[global] Instance exn_eq_dec : EqDecision exn.
Proof. solve_decision. Defined.
#[global] Instance result_eq_dec {A : Type} `{EqDecision A} : EqDecision (result A).
Proof. solve_decision. Defined.

(** The member-state graph is acyclic when the states can be ranked so
    that every member lies below the state it is a member of. *)
Definition ranked (h : heap) (rank : addr → nat) : Prop :=
  ∀ self ms m, member_states (h !!! self) = Some ms → m ∈ ms → rank m < rank self.

(** Calls with exactly one selector. *)

Inductive selector : Set := by_elem_ids | by_symbols | by_tokens.

Definition selector_attr (sel : selector) : attr :=
  match sel with
  | by_elem_ids => attr_elem_id
  | by_symbols => attr_symbol
  | by_tokens => attr_token
  end.

Definition selector_fundamental (sel : selector) : fundamental_attr :=
  match sel with
  | by_elem_ids => attr_fundamental_ids
  | by_symbols => attr_fundamental_symbols
  | by_tokens => attr_fundamental_tokens
  end.

(** [f(elem_ids=values)], [f(symbols=values)] or [f(tokens=values)]. *)
Definition supply {B R : Type} (f : option B → option B → option B → R)
    (sel : selector) (values : B) : R :=
  match sel with
  | by_elem_ids => f (Some values) None None
  | by_symbols => f None (Some values) None
  | by_tokens => f None None (Some values)
  end.

(** At most one state of [X] has the value [value] of the attribute. *)
Definition at_most_one (h : heap) (X : gset addr) (attr_name : attr) (value : pyval)
    : bool :=
  bool_decide
    (length (filter (λ state, getattr (h !!! state) attr_name = value) (elements X)) ≤ 1).

Definition unambiguous (h : heap) (X : gset addr) (attr_name : attr)
    (values : list pyval) : bool :=
  forallb (at_most_one h X attr_name) values.

(** The states of [X] whose fundamental values are exactly [values]. *)
Definition matching (depth : nat) (h : heap) (X : gset addr)
    (attr_name : fundamental_attr) (values : gset pyval) : list addr :=
  filter (λ state, @getattr_fundamental canonical_order depth h state attr_name
                   = Return values) (elements X).

(** Every state of [X] resolves at [depth], and at most one of them matches. *)
Definition decided (depth : nat) (h : heap) (X : gset addr)
    (attr_name : fundamental_attr) (values : gset pyval) : bool :=
  forallb (λ state,
      match @getattr_fundamental canonical_order depth h state attr_name with
      | Return _ => true
      | Raise _ => false
      end) (elements X)
  && bool_decide (length (matching depth h X attr_name values) ≤ 1).

(** ** Heaps and alphabets the properties are tried on *)

(** A state that is SINGLE-kind and holds an empty member-state list. *)
Definition empty_members_heap : heap :=
  [ Element None None (Some "A"%string) None SINGLE_STATE (Some []) ].

(** The states A and C, and M with the member states A and C. *)
Definition small_heap : heap :=
  [ single "A"; single "C"; ambiguous "M" [0; 1] ].

(** The alphabet of the three states of [small_heap]. *)
Definition small_alphabet : DiscreteStateAlphabetSet :=
  AlphabetSet None None {[ 0; 1; 2 ]}.

(** Two distinct states with the same identifier. *)
Definition same_id_heap : heap :=
  [ Element (Some "s1"%string) None (Some "A"%string) None SINGLE_STATE None;
    Element (Some "s1"%string) None (Some "B"%string) None SINGLE_STATE None ].

(** A block whose only alphabet holds the state 0. *)
Definition one_alphabet_block : CharactersBlock :=
  Block ∅ [AlphabetSet None None {[ 0 ]}] [].

(** The seventeen states that the statements of the DNA constructor name, in
    the order of the statements, every ambiguous state with the states of
    the symbols its statement lists; and the alphabet that holds them. *)

Definition dna_heap : heap :=
  [ single "A"; single "C"; single "G"; single "T"; single "-";
    ambiguous "?" [0; 1; 2; 3; 4];
    ambiguous "N" [0; 1; 2; 3];
    ambiguous "M" [0; 1];
    ambiguous "R" [0; 2];
    ambiguous "W" [0; 3];
    ambiguous "S" [1; 2];
    ambiguous "Y" [1; 3];
    ambiguous "K" [2; 3];
    ambiguous "V" [0; 1; 2];
    ambiguous "H" [0; 1; 3];
    ambiguous "D" [0; 2; 3];
    ambiguous "B" [1; 2; 3] ].

Definition dna_states : gset addr := list_to_set (seq 0 17).

Definition sym (s : string) : pyval := Some s.

Ltac dna_get_states any_order :=
  rewrite any_order by (vm_compute; reflexivity);
  match goal with
  | |- context [@get_states_loop canonical_order ?h ?s ?a ?v ?acc] =>
      let r := eval vm_compute in (@get_states_loop canonical_order h s a v acc) in
      replace (@get_states_loop canonical_order h s a v acc) with r
        by (vm_compute; reflexivity)
  end;
  cbn [mbind result_bind new app length add set_elem_id set_label states].

(** ** Vocabulary of the further properties *)

(** [m] is in the member-state list of [self]. *)
Definition member_of (h : heap) (self m : addr) : Prop :=
  ∃ ms, member_states (h !!! self) = Some ms ∧ m ∈ ms.





(** Every state in the member-state list of an object of the heap is an
    object of the heap: a reference never dangles. *)
Definition closed (h : heap) : Prop :=
  ∀ self m, self < length h → member_of h self m → m < length h.

(** A chain of states, each a member of the one before it, and each with a
    member-state list of its own. *)
Inductive chain (h : heap) : list addr → Prop :=
  | chain_last a : is_Some (member_states (h !!! a)) → chain h [a]
  | chain_step a m l : member_of h a m → chain h (m :: l) → chain h (a :: m :: l).

(** The iteration order that visits [first] before the other elements. *)
Definition front_order (first : addr) : IterationOrder.
Proof.
  refine {| iter := λ X, if decide (first ∈ X)
                         then first :: elements (X ∖ {[ first ]})
                         else elements X |}.
  intros X. destruct (decide (first ∈ X)) as [Hin|Hin]; [|done].
  rewrite (union_difference_singleton_L first X Hin) at 2.
  symmetry. apply elements_union_singleton.
  apply not_elem_of_difference. right. by apply elem_of_singleton.
Defined.

(** The symbols chosen among A, C, G, T and the gap. *)
Definition nucleotides (a c g t gap : bool) : list pyval :=
  (if a then [sym "A"] else []) ++ (if c then [sym "C"] else [])
  ++ (if g then [sym "G"] else []) ++ (if t then [sym "T"] else [])
  ++ (if gap then [sym "-"] else []).

(** The fundamental symbols of a state of [dna_heap]. *)
Definition dna_symbols (state : addr) : gset pyval :=
  match @_get_fundamental_symbols canonical_order 2 dna_heap state with
  | Return V => V
  | Raise _ => ∅
  end.

(** Two states that are members of each other. *)
Definition cyclic_heap : heap :=
  [ ambiguous "X" [1]; ambiguous "Y" [0] ].

(** [small_heap] with another identifier, label, symbol, token and kind for
    the state M. *)
Definition relabelled_heap : heap :=
  [ single "A"; single "C";
    Element (Some "m"%string) (Some "either"%string) (Some "Z"%string)
      (Some "z"%string) POLYMORPHIC_STATE (Some [0; 1]) ].

(** The alphabet of the two states of [same_id_heap]. *)
Definition same_id_alphabet : DiscreteStateAlphabetSet :=
  AlphabetSet None None {[ 0; 1 ]}.

(** The alphabet of the states A and C of [small_heap]. *)
Definition singles_alphabet : DiscreteStateAlphabetSet :=
  AlphabetSet None None {[ 0; 1 ]}.

(** * Properties *)

(** ** The exception monad *)

Lemma bind_Return {A B : Type} (f : A → result B) (m : result A) (b : B) :
  m ≫= f = Return b ↔ ∃ a, m = Return a ∧ f a = Return b.
Proof.
  destruct m as [a|e]; simpl; split.
  - intros Hf. by exists a.
  - by intros (a' & [= <-] & Hf).
  - intros Hf. discriminate Hf.
  - by intros (a' & [=] & _).
Qed.

Lemma bind_Raise {A B : Type} (f : A → result B) (m : result A) (e : exn) :
  m ≫= f = Raise e ↔ m = Raise e ∨ ∃ a, m = Return a ∧ f a = Raise e.
Proof.
  destruct m as [a|e']; simpl; split.
  - intros Hf. right. by exists a.
  - intros [[=]|(a' & [= <-] & Hf)]. done.
  - intros [= <-]. by left.
  - intros [[= <-]|(a' & [=] & _)]. done.
Qed.

(** ** Fundamental states *)

Lemma update_loop_Return f ms acc F :
  update_loop f ms acc = Return F ↔
  ∃ Fs, Forall2 (λ m Fm, f m = Return Fm) ms Fs ∧ F = acc ∪ ⋃ Fs.
Proof.
  revert acc. induction ms as [|m ms IH]; intros acc; simpl.
  - split.
    + intros [= <-]. exists []. split; [constructor|].
      simpl. by rewrite (right_id_L ∅ (∪)).
    + intros (Fs & HFs & ->). apply Forall2_nil_inv_l in HFs as ->.
      simpl. by rewrite (right_id_L ∅ (∪)).
  - rewrite bind_Return. split.
    + intros (Fm & Hm & Hrest). apply IH in Hrest as (Fs & HFs & ->).
      exists (Fm :: Fs). split; [by constructor|].
      simpl. by rewrite (assoc_L (∪)).
    + intros (Fs & HFs & ->).
      apply Forall2_cons_inv_l in HFs as (Fm & Fs' & Hm & HFs & ->).
      exists Fm. split; [done|]. apply IH. exists Fs'. split; [done|].
      simpl. by rewrite (assoc_L (∪)).
Qed.

Lemma update_loop_total f ms acc :
  Forall (λ m, ∃ Fm, f m = Return Fm) ms →
  ∃ F, update_loop f ms acc = Return F.
Proof.
  revert acc. induction ms as [|m ms IH]; intros acc Hms; simpl.
  - by eexists.
  - apply Forall_cons in Hms as [[Fm Hm] Hms]. rewrite Hm. simpl. by apply IH.
Qed.

(** A result obtained at some depth is the result at every greater depth. *)
Lemma _get_fundamental_states_mono depth depth' h self F :
  _get_fundamental_states depth h self = Return F →
  depth ≤ depth' →
  _get_fundamental_states depth' h self = Return F.
Proof.
  revert depth' self F.
  induction depth as [|depth IH]; intros depth' self F; simpl; [done|].
  intros Hself Hle. destruct depth' as [|depth']; [lia|]. simpl.
  destruct (member_states (h !!! self)) as [ms|]; [|done].
  apply update_loop_Return in Hself as (Fs & HFs & ->).
  apply update_loop_Return. exists Fs. split; [|done].
  eapply Forall2_impl; [exact HFs|]. intros m Fm Hm. apply IH; [done|lia].
Qed.

Lemma _get_fundamental_states_total h rank depth self :
  ranked h rank → rank self < depth →
  ∃ F, _get_fundamental_states depth h self = Return F.
Proof.
  intros Hrank. revert self.
  induction depth as [|depth IH]; intros self Hlt; [lia|]. simpl.
  destruct (member_states (h !!! self)) as [ms|] eqn:Hms; [|by eexists].
  apply update_loop_total. apply Forall_forall. intros m Hm.
  apply IH. specialize (Hrank self ms m Hms Hm). lia.
Qed.

(** Every state of a result is a state without a member-state list. *)
Lemma _get_fundamental_states_members depth h self F x :
  _get_fundamental_states depth h self = Return F →
  x ∈ F → member_states (h !!! x) = None.
Proof.
  revert self F.
  induction depth as [|depth IH]; intros self F; simpl; [done|].
  destruct (member_states (h !!! self)) as [ms|] eqn:Hms.
  - intros (Fs & HFs & ->)%update_loop_Return Hx.
    rewrite (left_id_L ∅ (∪)) in Hx.
    apply elem_of_union_list in Hx as (Fm & HFm & Hx).
    apply list_elem_of_lookup in HFm as [i Hi].
    destruct (Forall2_lookup_r _ _ _ _ _ HFs Hi) as (m & _ & Hm).
    by eapply IH.
  - intros [= <-] Hx. apply elem_of_singleton in Hx as ->. done.
Qed.

(** A result of the resolution holds the states without a member-state list
    that are reached from [self] through member-state lists, and no other. *)
Lemma _get_fundamental_states_reachable depth h self F :
  _get_fundamental_states depth h self = Return F →
  ∀ x, x ∈ F ↔ rtc (member_of h) self x ∧ member_states (h !!! x) = None.
Proof.
  revert self F. induction depth as [|depth IH]; intros self F; simpl; [done|].
  destruct (member_states (h !!! self)) as [ms|] eqn:Hms.
  - intros (Fs & HFs & ->)%update_loop_Return x.
    rewrite (left_id_L ∅ (∪)), elem_of_union_list. split.
    + intros (Fm & HFm & Hx).
      apply list_elem_of_lookup in HFm as [i Hi].
      destruct (Forall2_lookup_r _ _ _ _ _ HFs Hi) as (m & Hm & Hres).
      destruct (proj1 (IH m Fm Hres x) Hx) as [Hreach Hleaf]. split; [|done].
      eapply rtc_l; [|exact Hreach]. exists ms. split; [done|].
      by eapply list_elem_of_lookup_2.
    + intros [Hreach Hleaf].
      apply rtc_inv in Hreach as [->|(m & (ms' & Hms' & Hm) & Hreach)]; [congruence|].
      assert (ms' = ms) as -> by congruence.
      apply list_elem_of_lookup in Hm as [i Hi].
      destruct (Forall2_lookup_l _ _ _ _ _ HFs Hi) as (Fm & HFm & Hres).
      exists Fm. split; [by eapply list_elem_of_lookup_2|].
      apply (IH m Fm Hres). done.
  - intros [= <-] x. rewrite elem_of_singleton. split.
    + intros ->. done.
    + intros [Hreach _].
      apply rtc_inv in Hreach as [->|(m & (ms' & Hms' & _) & _)]; [done|congruence].
Qed.

Lemma small_heap_ranked : ranked small_heap id.
Proof.
  intros [|[|[|self]]] ms m; simpl; try discriminate.
  intros [= <-] Hm. apply elem_of_cons in Hm as [->|Hm]; [lia|].
  apply elem_of_cons in Hm as [->|Hm]; [lia|]. by apply elem_of_nil in Hm.
Qed.

(** C1, as amended: for every state [self] of an acyclic member-state graph
    (every member ranks below its owner) and every depth above the rank of
    [self], [_get_fundamental_states] returns the singleton of [self] when the
    member-state list of [self] is absent ([None]), and otherwise returns the
    union, over the members in the list, of their fundamental states (each
    of which is a result too); in particular a SINGLE-kind state whose
    member-state list is absent resolves to exactly itself. *)
Theorem fundamental_states_resolution h rank depth self :
  ranked h rank → rank self < depth →
  match member_states (h !!! self) with
  | None => _get_fundamental_states depth h self = Return {[ self ]}
  | Some ms =>
      ∃ Fs, Forall2 (λ m Fm, _get_fundamental_states depth h m = Return Fm) ms Fs
            ∧ _get_fundamental_states depth h self = Return (⋃ Fs)
  end
  ∧ (multistate (h !!! self) = SINGLE_STATE →
     member_states (h !!! self) = None →
     _get_fundamental_states depth h self = Return {[ self ]}).
Proof.
  intros Hrank Hlt.
  destruct (_get_fundamental_states_total h rank depth self Hrank Hlt) as [F HF].
  destruct depth as [|depth]; [lia|]. simpl in *.
  destruct (member_states (h !!! self)) as [ms|] eqn:Hms; [|done].
  split; [|done].
  pose proof HF as (Fs & HFs & ->)%update_loop_Return.
  exists Fs. split.
  - eapply Forall2_impl; [exact HFs|]. intros m Fm Hm.
    change (_get_fundamental_states (S depth) h m = Return Fm).
    eapply _get_fundamental_states_mono; [exact Hm|lia].
  - by rewrite (left_id_L ∅ (∪)) in HF.
Qed.

(** The resolution of the state M of [small_heap], ranked by its addresses. *)
Lemma fundamental_states_resolution_witness :
  match member_states (small_heap !!! 2) with
  | None => _get_fundamental_states 3 small_heap 2 = Return {[ 2 ]}
  | Some ms =>
      ∃ Fs, Forall2 (λ m Fm, _get_fundamental_states 3 small_heap m = Return Fm) ms Fs
            ∧ _get_fundamental_states 3 small_heap 2 = Return (⋃ Fs)
  end
  ∧ (multistate (small_heap !!! 2) = SINGLE_STATE →
     member_states (small_heap !!! 2) = None →
     _get_fundamental_states 3 small_heap 2 = Return {[ 2 ]}).
Proof.
  apply (fundamental_states_resolution small_heap id 3 2).
  - exact small_heap_ranked.
  - simpl. lia.
Defined.

(** C1, as stated, fails: a SINGLE-kind state built with an empty member-state
    list has no member states, yet it resolves to the empty set and not to
    its own singleton. *)
Lemma fundamental_states_empty_list_counterexample :
  ranked empty_members_heap (λ _, 0)
  ∧ multistate (empty_members_heap !!! 0) = SINGLE_STATE
  ∧ member_states (empty_members_heap !!! 0) = Some []
  ∧ _get_fundamental_states 1 empty_members_heap 0 = Return ∅
  ∧ _get_fundamental_states 1 empty_members_heap 0 ≠ Return {[ 0 ]}.
Proof.
  split.
  - intros [|self] ms m; simpl; [|done].
    intros [= <-] Hm. by apply elem_of_nil in Hm.
  - repeat split. simpl. intros [=].
Qed.

(** ** Projections of the fundamental states *)

Lemma elem_of_iter `{IterationOrder} (X : gset addr) (x : addr) :
  x ∈ iter X ↔ x ∈ X.
Proof. rewrite (iter_elements X). apply elem_of_elements. Qed.

Lemma truth_true (v : pyval) :
  truth v = true ↔ v ≠ None ∧ v ≠ Some EmptyString.
Proof. destruct v as [[|c s]|]; simpl; split; try done; by intros []. Qed.

Lemma elem_of_projection `{IterationOrder} (f : DiscreteStateAlphabetElement → pyval)
    (h : heap) (F : gset addr) (v : pyval) :
  v ∈ (list_to_set ((λ state, f (h !!! state)) <$>
         filter (λ state, truth (f (h !!! state)) = true) (iter F)) : gset pyval)
  ↔ ∃ state, state ∈ F ∧ f (h !!! state) = v ∧ truth v = true.
Proof.
  rewrite elem_of_list_to_set, list_elem_of_fmap. split.
  - intros (state & -> & Hin). apply list_elem_of_filter in Hin as [Ht Hin].
    exists state. by rewrite <- elem_of_iter.
  - intros (state & Hin & <- & Ht). exists state. split; [done|].
    apply list_elem_of_filter. by rewrite elem_of_iter.
Qed.

(** C8: whenever [_get_fundamental_states] returns a set [F], the three
    projections return the sets of the identifiers, of the symbols and of the
    tokens of the states in [F], where the symbol and token projections leave
    out every state whose symbol (token) is [None] or the empty string, so
    that neither ever holds [None] or the empty string; and when the
    resolution raises, the projections raise the same exception. *)
Theorem fundamental_projections `{IterationOrder} depth h self :
  match _get_fundamental_states depth h self with
  | Return F =>
      ∃ ids symbols tokens : gset pyval,
        _get_fundamental_ids depth h self = Return ids
        ∧ _get_fundamental_symbols depth h self = Return symbols
        ∧ _get_fundamental_tokens depth h self = Return tokens
        ∧ (∀ v, v ∈ ids ↔ ∃ state, state ∈ F ∧ elem_id (h !!! state) = v)
        ∧ (∀ v, v ∈ symbols ↔
                ∃ state, state ∈ F ∧ symbol (h !!! state) = v
                         ∧ v ≠ None ∧ v ≠ Some EmptyString)
        ∧ (∀ v, v ∈ tokens ↔
                ∃ state, state ∈ F ∧ token (h !!! state) = v
                         ∧ v ≠ None ∧ v ≠ Some EmptyString)
        ∧ (None ∉ symbols) ∧ (Some EmptyString ∉ symbols)
        ∧ (None ∉ tokens) ∧ (Some EmptyString ∉ tokens)
  | Raise e =>
      _get_fundamental_ids depth h self = Raise e
      ∧ _get_fundamental_symbols depth h self = Raise e
      ∧ _get_fundamental_tokens depth h self = Raise e
  end.
Proof.
  unfold _get_fundamental_ids, _get_fundamental_symbols, _get_fundamental_tokens.
  destruct (_get_fundamental_states depth h self) as [F|e]; simpl; [|done].
  eexists _, _, _. do 3 (split; [reflexivity|]).
  split; [|split; [|split]].
  - intros v. rewrite elem_of_list_to_set, list_elem_of_fmap.
    split.
    + intros (state & -> & Hin%elem_of_iter). by exists state.
    + intros (state & Hin & <-). exists state. by rewrite elem_of_iter.
  - intros v. rewrite (elem_of_projection symbol). by setoid_rewrite truth_true.
  - intros v. rewrite (elem_of_projection token). by setoid_rewrite truth_true.
  - repeat split; rewrite elem_of_projection; intros (state & _ & _ & Ht);
      discriminate Ht.
Qed.

(** C10: a state whose member-state list is present but empty resolves to
    the empty set at every positive depth, not to its own singleton, and its
    fundamental identifiers, symbols and tokens are then empty; and a state
    that belongs to its own fundamental states is one whose member-state
    list is absent. *)
Theorem empty_member_list `{IterationOrder} depth h self :
  (member_states (h !!! self) = Some [] →
     _get_fundamental_states (S depth) h self = Return ∅
     ∧ _get_fundamental_ids (S depth) h self = Return ∅
     ∧ _get_fundamental_symbols (S depth) h self = Return ∅
     ∧ _get_fundamental_tokens (S depth) h self = Return ∅)
  ∧ (∀ F, _get_fundamental_states depth h self = Return F →
          self ∈ F → member_states (h !!! self) = None).
Proof.
  split.
  - intros Hms.
    unfold _get_fundamental_ids, _get_fundamental_symbols, _get_fundamental_tokens.
    simpl. rewrite Hms. simpl.
    assert (iter ∅ = []) as ->.
    { apply Permutation_nil_r. by rewrite iter_elements, elements_empty. }
    done.
  - intros F HF Hself. by eapply _get_fundamental_states_members.
Qed.

(** The state of [empty_members_heap] resolves to the empty set. *)
Lemma empty_member_list_witness :
  _get_fundamental_states 1 empty_members_heap 0 = Return ∅
  ∧ _get_fundamental_ids 1 empty_members_heap 0 = Return ∅
  ∧ _get_fundamental_symbols 1 empty_members_heap 0 = Return ∅
  ∧ _get_fundamental_tokens 1 empty_members_heap 0 = Return ∅.
Proof.
  apply (proj1 (empty_member_list 0 empty_members_heap 0)). reflexivity.
Defined.

(** ** Lookup of a state by an attribute *)

Section lookup_properties.
  Context `{IterationOrder}.

Lemma get_state_loop_filter h attr_name value l :
  get_state_loop h attr_name value l =
  match filter (λ state, getattr (h !!! state) attr_name = value) l with
  | [] => Raise (StateNotDefined attr_name value)
  | state :: _ => Return state
  end.
Proof.
  induction l as [|state l IH]; simpl; [done|].
  case_bool_decide as Hv.
  - by rewrite filter_cons_True.
  - by rewrite filter_cons_False.
Qed.

Lemma get_states_loop_mapM h self attr_name values acc :
  get_states_loop h self attr_name values acc =
  found ← mapM (get_state h self attr_name) values; Return (acc ++ found).
Proof.
  revert acc. induction values as [|value values IH]; intros acc; simpl.
  - by rewrite (right_id_L [] (++)).
  - destruct (get_state h self attr_name value) as [state|e]; simpl; [|done].
    rewrite IH.
    destruct (mapM (get_state h self attr_name) values) as [found|e]; simpl; [|done].
    by rewrite <- (assoc_L (++)).
Qed.
End lookup_properties.

Lemma filter_head_split {A : Type} (P : A → Prop) `{∀ x, Decision (P x)} l a rest :
  filter P l = a :: rest →
  ∃ before after, l = before ++ a :: after ∧ P a ∧ ∀ b, b ∈ before → ¬ P b.
Proof.
  induction l as [|x l IH]; [done|].
  destruct (decide (P x)) as [HP|HP].
  - rewrite filter_cons_True by done. intros [= -> _].
    exists [], l. split; [done|]. split; [done|]. intros b Hb. by apply elem_of_nil in Hb.
  - rewrite filter_cons_False by done. intros Hf.
    destruct (IH Hf) as (before & after & -> & Ha & Hbefore).
    exists (x :: before), after. split; [done|]. split; [done|].
    intros b [->|Hb]%elem_of_cons; [done|by apply Hbefore].
Qed.

Lemma mapM_Return {A B : Type} (f : A → result B) l k :
  mapM f l = Return k ↔ Forall2 (λ x y, f x = Return y) l k.
Proof.
  revert k. induction l as [|x l IH]; intros k; simpl.
  - split.
    + intros [= <-]. constructor.
    + by intros ->%Forall2_nil_inv_l.
  - rewrite bind_Return. split.
    + intros (y & Hy & (k' & Hk' & [= <-])%bind_Return).
      constructor; [done|]. by apply IH.
    + intros (y & k' & Hy & Hk' & ->)%Forall2_cons_inv_l.
      exists y. split; [done|]. apply bind_Return. exists k'. split; [|done].
      by apply IH.
Qed.

Lemma mapM_Raise_first {A B : Type} (f : A → result B) matched found x rest e :
  Forall2 (λ x y, f x = Return y) matched found →
  f x = Raise e →
  mapM f (matched ++ x :: rest) = Raise e.
Proof.
  intros Hmatched Hx. induction Hmatched as [|x' y' matched found Hx' _ IH]; simpl.
  - by rewrite Hx.
  - rewrite Hx'. simpl. by rewrite IH.
Qed.

(** ** Lookups that do not depend on the iteration order *)

Lemma mapM_ext_Forall {A B : Type} (f g : A → result B) l :
  Forall (λ x, f x = g x) l → mapM f l = mapM g l.
Proof.
  induction 1 as [|x l Hx _ IH]; simpl; [done|]. by rewrite Hx, IH.
Qed.

Lemma Permutation_short {A : Type} (l k : list A) :
  l ≡ₚ k → length k ≤ 1 → l = k.
Proof.
  destruct k as [|x [|y k]]; simpl; intros Hp Hlen.
  - by apply Permutation_nil_r.
  - by apply Permutation_singleton_r.
  - lia.
Qed.

Lemma get_state_any_order (O : IterationOrder) h self attr_name value :
  at_most_one h (states self) attr_name value = true →
  @get_state O h self attr_name value
  = @get_state canonical_order h self attr_name value.
Proof.
  unfold at_most_one, get_state. intros Hone%bool_decide_eq_true.
  rewrite !get_state_loop_filter.
  assert (filter (λ state, getattr (h !!! state) attr_name = value) (iter (states self))
          = filter (λ state, getattr (h !!! state) attr_name = value)
              (elements (states self))) as ->; [|done].
  apply Permutation_short; [|done]. by rewrite iter_elements.
Qed.

Lemma get_states_any_order (O : IterationOrder) h self attr_name values :
  unambiguous h (states self) attr_name values = true →
  @get_states_loop O h self attr_name values []
  = @get_states_loop canonical_order h self attr_name values [].
Proof.
  intros Hun. rewrite !get_states_loop_mapM. f_equal.
  apply mapM_ext_Forall, Forall_forall. intros value Hvalue.
  apply get_state_any_order.
  unfold unambiguous in Hun. rewrite forallb_forall in Hun.
  apply list_elem_of_In in Hvalue.
  by apply Hun.
Qed.

(** ** Matching a state by its fundamental values *)

Lemma getattr_fundamental_any_order (O : IterationOrder) depth h state attr_name :
  @getattr_fundamental O depth h state attr_name
  = @getattr_fundamental canonical_order depth h state attr_name.
Proof.
  destruct attr_name; simpl;
    unfold _get_fundamental_ids, _get_fundamental_symbols, _get_fundamental_tokens;
    destruct (_get_fundamental_states depth h state) as [F|e]; simpl; try done;
    f_equal; apply list_to_set_perm_L; simpl; by rewrite iter_elements.
Qed.

Lemma getattr_fundamental_mono `{IterationOrder} depth depth' h state attr_name V :
  getattr_fundamental depth h state attr_name = Return V →
  depth ≤ depth' →
  getattr_fundamental depth' h state attr_name = Return V.
Proof.
  intros HV Hle. destruct attr_name; simpl in *;
    unfold _get_fundamental_ids, _get_fundamental_symbols, _get_fundamental_tokens in *;
    apply bind_Return in HV as (F & HF & HV);
    by rewrite (_get_fundamental_states_mono depth depth' h state F HF Hle).
Qed.


(** The loop of [match_state] over states whose fundamental values all
    resolve: it returns the first state that matches, [None] when none does. *)
Lemma match_state_loop_first `{IterationOrder} depth h attr_name values l :
  (∀ state, state ∈ l → ∃ V, getattr_fundamental depth h state attr_name = Return V) →
  ∃ r, match_state_loop depth h attr_name values l = Return r ∧
    match r with
    | Some state =>
        ∃ before after, l = before ++ state :: after
          ∧ getattr_fundamental depth h state attr_name = Return values
          ∧ ∀ other, other ∈ before →
              getattr_fundamental depth h other attr_name ≠ Return values
    | None =>
        ∀ state, state ∈ l →
          getattr_fundamental depth h state attr_name ≠ Return values
    end.
Proof.
  induction l as [|state l IH]; intros Hl; simpl.
  - exists None. split; [done|]. intros state Hstate. by apply elem_of_nil in Hstate.
  - destruct (Hl state) as [V HV]; [by left|]. rewrite HV. simpl.
    case_bool_decide as Heq.
    + subst V. exists (Some state). split; [done|]. exists [], l.
      split; [done|]. split; [done|]. intros other Hother. by apply elem_of_nil in Hother.
    + destruct IH as (r & Hr & Hspec).
      { intros state' Hstate'. apply Hl. by right. }
      exists r. split; [done|]. destruct r as [found|].
      * destruct Hspec as (before & after & -> & Hfound & Hbefore).
        exists (state :: before), after. split; [done|]. split; [done|].
        intros other [->|Hother]%elem_of_cons; [|by apply Hbefore].
        rewrite HV. by intros [= ->].
      * intros state' [->|Hstate']%elem_of_cons; [|by apply Hspec].
        rewrite HV. by intros [= ->].
Qed.

Lemma match_state_loop_head (O : IterationOrder) depth0 depth h attr_name values l :
  (∀ state, state ∈ l →
     ∃ V, @getattr_fundamental canonical_order depth0 h state attr_name = Return V) →
  depth0 ≤ depth →
  @match_state_loop O depth h attr_name values l
  = Return (head (filter (λ state,
      @getattr_fundamental canonical_order depth0 h state attr_name = Return values) l)).
Proof.
  intros Hl Hle. induction l as [|state l IH]; simpl; [done|].
  destruct (Hl state) as [V HV]; [by left|].
  rewrite getattr_fundamental_any_order.
  rewrite (getattr_fundamental_mono depth0 depth h state attr_name V HV Hle). simpl.
  case_bool_decide as Heq.
  - subst V. by rewrite filter_cons_True.
  - rewrite filter_cons_False by (rewrite HV; by intros [= ->]).
    apply IH. intros state' Hstate'. apply Hl. by right.
Qed.

Lemma match_state_loop_decided (O : IterationOrder) depth0 depth h X attr_name values :
  decided depth0 h X attr_name values = true →
  depth0 ≤ depth →
  @match_state_loop O depth h attr_name values (@iter O X)
  = @match_state_loop canonical_order depth0 h attr_name values (elements X).
Proof.
  intros [Hall Hone%bool_decide_eq_true]%andb_true_iff Hle.
  rewrite forallb_forall in Hall.
  assert (∀ state, state ∈ X →
    ∃ V, @getattr_fundamental canonical_order depth0 h state attr_name = Return V)
    as Hres.
  { intros state Hstate. specialize (Hall state).
    destruct (@getattr_fundamental canonical_order depth0 h state attr_name) as [V|e].
    - by exists V.
    - discriminate Hall. by apply list_elem_of_In, elem_of_elements. }
  rewrite (match_state_loop_head O depth0 depth), (match_state_loop_head _ depth0 depth0);
    [|intros state Hstate; by apply Hres, elem_of_elements|lia
     |intros state Hstate; by apply Hres, elem_of_iter|done].
  do 2 f_equal. apply Permutation_short; [|done]. by rewrite iter_elements.
Qed.

Lemma match_state_decided (O : IterationOrder) depth0 depth h self elem_ids symbols tokens :
  match choose attr_fundamental_ids attr_fundamental_symbols attr_fundamental_tokens
          elem_ids symbols tokens with
  | Return (attr_name, values) =>
      decided depth0 h (states self) attr_name (as_value_set values) = true
  | Raise _ => True
  end →
  depth0 ≤ depth →
  @match_state O depth h self elem_ids symbols tokens
  = @match_state canonical_order depth0 h self elem_ids symbols tokens.
Proof.
  unfold match_state.
  destruct (choose _ _ _ elem_ids symbols tokens) as [[attr_name values]|e]; simpl; [|done].
  apply match_state_loop_decided.
Qed.

(** ** The DNA alphabet *)

(** In a class that has [append] and inserts with it as [add] does, the
    constructor builds on a fresh heap the seventeen states of [dna_heap],
    whatever the iteration order of the set. *)
Lemma DnaStateAlphabetSet__init__subclass `{IterationOrder} methods elem_id label :
  methods !! "append"%string = Some add →
  DnaStateAlphabetSet__init__ methods [] elem_id label
  = Return (dna_heap, AlphabetSet elem_id label dna_states).
Proof.
  intros Happend.
  unfold DnaStateAlphabetSet__init__, DiscreteStateAlphabetSet__init__, call_append,
    getattr_method, get_states.
  rewrite Happend.
  cbn [new app length choose syms mbind result_bind add set_elem_id set_label states].
  do 12 (dna_get_states get_states_any_order).
  reflexivity.
Qed.

Lemma dna_match_state `{IterationOrder} depth elem_id label elem_ids symbols tokens :
  match choose attr_fundamental_ids attr_fundamental_symbols attr_fundamental_tokens
          elem_ids symbols tokens with
  | Return (attr_name, values) =>
      decided 2 dna_heap dna_states attr_name (as_value_set values) = true
  | Raise _ => True
  end →
  2 ≤ depth →
  match_state depth dna_heap (AlphabetSet elem_id label dna_states)
    elem_ids symbols tokens
  = @match_state canonical_order 2 dna_heap (AlphabetSet None None dna_states)
      elem_ids symbols tokens.
Proof.
  intros Hdec Hle.
  by rewrite (match_state_decided _ 2 depth dna_heap
                (AlphabetSet elem_id label dna_states) _ _ _ Hdec Hle).
Qed.

(** With the states of [dna_heap] the four lookups give the states N, M, R
    and ?, at every depth that allows two nested calls. *)
Lemma dna_heap_match_state_symbols `{IterationOrder} depth elem_id label :
  2 ≤ depth →
  let dna := AlphabetSet elem_id label dna_states in
  match_state depth dna_heap dna None
    (Some (PySet {[ sym "A"; sym "C"; sym "G"; sym "T" ]})) None = Return (Some 6)
  ∧ match_state depth dna_heap dna None
      (Some (PySet {[ sym "A"; sym "C" ]})) None = Return (Some 7)
  ∧ match_state depth dna_heap dna None (Some (PyStr "AG")) None = Return (Some 8)
  ∧ match_state depth dna_heap dna None (Some (PyStr "ACGT-")) None = Return (Some 5).
Proof.
  intros Hle dna. unfold dna. repeat split;
    by rewrite dna_match_state by (done || (vm_compute; reflexivity)).
Qed.

(** C4: [DnaStateAlphabetSet()] builds no alphabet.  Its first statement
    after the constructor of the base class calls [self.append], a method
    that the class does not have: the constructor raises [AttributeError]
    on every heap, for every identifier and label, before a state is built. *)
Theorem DnaStateAlphabetSet__init__raises `{IterationOrder} h elem_id label :
  DnaStateAlphabetSet__init__ DnaStateAlphabetSet_methods h elem_id label
  = Raise (AttributeError "append").
Proof. reflexivity. Qed.

(** C3: [DnaStateAlphabetSet().match_state(...)] never reaches
    [match_state]: the constructor raises [AttributeError], whatever the
    selectors and the depth of the lookup that was to follow. *)
Theorem dna_match_state_unreachable `{IterationOrder} h elem_id label depth
    elem_ids symbols tokens :
  ('(h2, dna) ← DnaStateAlphabetSet__init__ DnaStateAlphabetSet_methods h elem_id label;
   match_state depth h2 dna elem_ids symbols tokens)
  = Raise (AttributeError "append").
Proof. reflexivity. Qed.

(** C5: [get_states] with one selector returns the states that
    [get_state] finds for the values, one by one and in their order, so
    that equal values give equal states at their positions; when a value
    is matched by no state of the alphabet while all those before it are
    matched, it raises the "not defined" exception of that value and
    returns nothing.  [get_state] returns the first state, in the
    iteration order of the set, whose attribute equals the value, and
    raises the "not defined" exception exactly when no state has it.  On
    the alphabet of the seventeen DNA states
    [get_states(symbols=["A", "Z"])] raises for Z. *)
Theorem get_states_in_order `{IterationOrder} :
  (∀ h self sel values,
      supply (get_states h self) sel values
      = mapM (get_state h self (selector_attr sel)) values
      ∧ (∀ found,
           supply (get_states h self) sel values = Return found
           ↔ Forall2 (λ value state,
                get_state h self (selector_attr sel) value = Return state)
               values found)
      ∧ (∀ matched found value rest,
           values = matched ++ value :: rest →
           Forall2 (λ value state,
                get_state h self (selector_attr sel) value = Return state)
             matched found →
           (∀ state, state ∈ states self →
              getattr (h !!! state) (selector_attr sel) ≠ value) →
           supply (get_states h self) sel values
           = Raise (StateNotDefined (selector_attr sel) value)))
  ∧ (∀ h self attr_name value,
      match get_state h self attr_name value with
      | Return state =>
          state ∈ states self
          ∧ ∃ before after, iter (states self) = before ++ state :: after
            ∧ getattr (h !!! state) attr_name = value
            ∧ ∀ other, other ∈ before → getattr (h !!! other) attr_name ≠ value
      | Raise e =>
          e = StateNotDefined attr_name value
          ∧ ∀ state, state ∈ states self → getattr (h !!! state) attr_name ≠ value
      end)
  ∧ (∀ elem_id label,
      get_states dna_heap (AlphabetSet elem_id label dna_states) None
        (syms ["A"; "Z"]) None
      = Raise (StateNotDefined attr_symbol (sym "Z"))).
Proof.
  assert (∀ h self attr_name value,
    match get_state h self attr_name value with
    | Return state =>
        state ∈ states self
        ∧ ∃ before after, iter (states self) = before ++ state :: after
          ∧ getattr (h !!! state) attr_name = value
          ∧ ∀ other, other ∈ before → getattr (h !!! other) attr_name ≠ value
    | Raise e =>
        e = StateNotDefined attr_name value
        ∧ ∀ state, state ∈ states self → getattr (h !!! state) attr_name ≠ value
    end) as Hget.
  { intros h self attr_name value. unfold get_state.
    rewrite get_state_loop_filter.
    destruct (filter _ (iter (states self))) as [|state rest] eqn:Hfilter.
    - split; [done|]. intros state Hstate%elem_of_iter Hvalue.
      by eapply (filter_nil_not_elem_of _ _ state Hfilter).
    - apply filter_head_split in Hfilter as (before & after & Hsplit & Hspec).
      split; [|by eauto].
      apply elem_of_iter. rewrite Hsplit. apply elem_of_app. right. by left. }
  assert (∀ h self sel values,
    supply (get_states h self) sel values
    = mapM (get_state h self (selector_attr sel)) values) as Hmap.
  { intros h self sel values.
    destruct sel; simpl; unfold get_states; simpl;
      rewrite get_states_loop_mapM;
      by destruct (mapM _ values). }
  split; [|split; [exact Hget|]].
  - intros h self sel values. split; [by apply Hmap|]. split.
    + intros found. rewrite Hmap. apply mapM_Return.
    + intros matched found value rest -> Hmatched Hnone. rewrite Hmap.
      apply (mapM_Raise_first _ matched found); [done|].
      specialize (Hget h self (selector_attr sel) value).
      destruct (get_state h self (selector_attr sel) value) as [state|e].
      * destruct Hget as (Hstate & _ & _ & _ & Hvalue & _).
        by destruct (Hnone state Hstate).
      * by destruct Hget as [-> _].
  - intros elem_id label.
    unfold get_states. cbn [choose syms mbind result_bind].
    rewrite get_states_any_order by (vm_compute; reflexivity).
    by vm_compute.
Qed.


(** The states of the symbols C, A, C on [small_alphabet], and the lookup of
    A and Z among the DNA states, in the canonical order. *)
Lemma get_states_in_order_witness :
  supply (get_states small_heap small_alphabet) by_symbols [sym "C"; sym "A"; sym "C"]
  = mapM (get_state small_heap small_alphabet (selector_attr by_symbols))
      [sym "C"; sym "A"; sym "C"]
  ∧ get_states dna_heap (AlphabetSet None None dna_states) None (syms ["A"; "Z"]) None
    = Raise (StateNotDefined attr_symbol (sym "Z")).
Proof.
  destruct (get_states_in_order (H := canonical_order)) as (Hany & _ & Hdna).
  split.
  - exact (proj1 (Hany small_heap small_alphabet by_symbols
                     [sym "C"; sym "A"; sym "C"])).
  - exact (Hdna None None).
Defined.

(** ** Matching against the specification *)







(** ** The selectors *)

Lemma _get_fundamental_states_Raise depth h self e :
  _get_fundamental_states depth h self = Raise e → e = RecursionDepthExceeded.
Proof.
  revert self. induction depth as [|depth IH]; intros self; simpl.
  - by intros [= <-].
  - destruct (member_states (h !!! self)) as [ms|]; [|done].
    generalize (∅ : gset addr).
    induction ms as [|m ms IHms]; intros acc; simpl; [done|].
    intros [Hm|(Fm & _ & Hrest)]%bind_Raise.
    + by eapply IH.
    + by eapply IHms.
Qed.

Lemma getattr_fundamental_Raise `{IterationOrder} depth h state attr_name e :
  getattr_fundamental depth h state attr_name = Raise e → e = RecursionDepthExceeded.
Proof.
  destruct attr_name; simpl;
    unfold _get_fundamental_ids, _get_fundamental_symbols, _get_fundamental_tokens;
    (intros [He|(F & _ & [=])]%bind_Raise; by eapply _get_fundamental_states_Raise).
Qed.

Lemma match_state_loop_Raise `{IterationOrder} depth h attr_name values l e :
  match_state_loop depth h attr_name values l = Raise e → e = RecursionDepthExceeded.
Proof.
  induction l as [|state l IH]; simpl; [done|].
  intros [He|(V & _ & Hrest)]%bind_Raise.
  - by eapply getattr_fundamental_Raise.
  - case_bool_decide; [done|by apply IH].
Qed.

Lemma get_states_loop_Raise `{IterationOrder} h self attr_name values acc e :
  get_states_loop h self attr_name values acc = Raise e →
  ∃ value, e = StateNotDefined attr_name value.
Proof.
  revert acc. induction values as [|value values IH]; intros acc; simpl; [done|].
  intros [He|(state & _ & Hrest)]%bind_Raise.
  - unfold get_state in He. rewrite get_state_loop_filter in He.
    destruct (filter _ _); [|done]. injection He as <-. by eexists.
  - by eapply IH.
Qed.

(** C6, as amended: [get_states] and [match_state] raise the "must specify"
    exception exactly when none of the three selectors is supplied.  With more
    than one supplied they do not raise it: they use the first that is
    supplied, in the order identifiers, symbols, tokens, and take no notice of
    the others. *)
Theorem must_specify_when_no_selector `{IterationOrder} depth h self :
  (∀ elem_ids symbols tokens,
      get_states h self elem_ids symbols tokens = Raise MustSpecify
      ↔ elem_ids = None ∧ symbols = None ∧ tokens = None)
  ∧ (∀ elem_ids symbols tokens,
      match_state depth h self elem_ids symbols tokens = Raise MustSpecify
      ↔ elem_ids = None ∧ symbols = None ∧ tokens = None)
  ∧ (∀ values symbols tokens,
      get_states h self (Some values) symbols tokens
      = supply (get_states h self) by_elem_ids values
      ∧ get_states h self None (Some values) tokens
        = supply (get_states h self) by_symbols values)
  ∧ (∀ values symbols tokens,
      match_state depth h self (Some values) symbols tokens
      = supply (match_state depth h self) by_elem_ids values
      ∧ match_state depth h self None (Some values) tokens
        = supply (match_state depth h self) by_symbols values).
Proof.
  split; [|split; [|split]].
  - intros elem_ids symbols tokens. split.
    + unfold get_states.
      destruct elem_ids, symbols, tokens; simpl; try done;
        intros [value [=]]%get_states_loop_Raise.
    + by intros (-> & -> & ->).
  - intros elem_ids symbols tokens. split.
    + unfold match_state.
      destruct elem_ids, symbols, tokens; simpl; try done;
        intros [=]%match_state_loop_Raise.
    + by intros (-> & -> & ->).
  - intros values symbols tokens. by destruct symbols, tokens.
  - intros values symbols tokens. by destruct symbols, tokens.
Qed.

(** C6, as stated, fails: with two selectors supplied neither operation
    raises; the symbols are used and the tokens are not looked at. *)
Lemma two_selectors_counterexample :
  get_states small_heap small_alphabet None (syms ["A"]) (syms ["C"]) = Return [0]
  ∧ match_state 2 small_heap small_alphabet None (Some (PyStr "AC")) (Some (PyStr "A"))
    = Return (Some 2).
Proof. split; by vm_compute. Qed.

(** ** Insertion into an alphabet *)

(** C7, as amended: inserting a state into an alphabet never fails,
    whatever the identifier of the state.  The result holds the state and
    the states that were there; an object that is already an element leaves
    the alphabet exactly as it was, and any other object, also one whose
    identifier equals that of an element, makes it one state larger. *)
Theorem add_never_fails (self : DiscreteStateAlphabetSet) (state : addr) :
  ∃ self', add self state = Return self'
    ∧ states self' = {[ state ]} ∪ states self
    ∧ set_elem_id self' = set_elem_id self
    ∧ set_label self' = set_label self
    ∧ (state ∈ states self → self' = self)
    ∧ (state ∉ states self → size (states self') = S (size (states self))).
Proof.
  eexists. split; [reflexivity|]. simpl. repeat split.
  - intros Hin. destruct self as [i l X]. simpl in *. f_equal.
    by apply subseteq_union_1_L, singleton_subseteq_l.
  - intros Hnotin. rewrite size_union by (by apply disjoint_singleton_l).
    by rewrite size_singleton.
Qed.

(** C7, as stated, fails: a second state with the identifier of a state of
    the alphabet is inserted without an exception, and the alphabet changes. *)
Lemma add_same_identifier_counterexample :
  elem_id (same_id_heap !!! 1) = elem_id (same_id_heap !!! 0)
  ∧ 0 ∈ states (AlphabetSet None None {[ 0 ]})
  ∧ add (AlphabetSet None None {[ 0 ]}) 1 = Return (AlphabetSet None None {[ 0; 1 ]})
  ∧ size (states (AlphabetSet None None {[ 0; 1 ]})) = 2.
Proof.
  split; [done|]. split; [simpl; by rewrite elem_of_singleton|]. split; [|by vm_compute].
  by vm_compute.
Qed.

(** ** Rows of a characters block *)

(** C9, as amended: storing a row under a taxon never fails, whatever
    states the row holds and whatever alphabets the block has; the row is
    then the one read back under that taxon, the rows of the other taxa and
    the alphabets and characters of the block are as before. *)
Theorem setitem_never_fails (self : CharactersBlock) (taxon : nat) (row : list addr) :
  ∃ self', setitem self taxon row = Return self'
    ∧ getitem self' taxon = Return row
    ∧ (∀ other, other ≠ taxon → getitem self' other = getitem self other)
    ∧ state_alphabet_sets self' = state_alphabet_sets self
    ∧ characters self' = characters self.
Proof.
  eexists. split; [reflexivity|]. unfold getitem. simpl.
  split; [by rewrite lookup_insert_eq|]. split; [|done].
  intros other Hother. by rewrite lookup_insert_ne.
Qed.

(** C9, as stated, fails: a row with a state that is in no alphabet of the
    block is stored without an exception. *)
Lemma setitem_foreign_state_counterexample :
  Forall (λ alphabet, 1 ∉ states alphabet) (state_alphabet_sets one_alphabet_block)
  ∧ setitem one_alphabet_block 0 [1]
    = Return (Block {[ 0 := [1] ]} [AlphabetSet None None {[ 0 ]}] [])
  ∧ getitem (Block {[ 0 := [1] ]} [AlphabetSet None None {[ 0 ]}] []) 0 = Return [1].
Proof.
  split; [|split; [|done]].
  - repeat constructor. simpl. rewrite elem_of_singleton. lia.
  - unfold setitem. simpl. f_equal.
Qed.

(** * Further properties *)

(** X1: a result of [_get_fundamental_states] is exactly the set of the
    states without a member-state list that are reached from [self] through
    member-state lists; the only exception the resolution raises is the
    exhausted recursion depth. *)
Theorem fundamental_states_reachable_leaves depth h self :
  match _get_fundamental_states depth h self with
  | Return F =>
      ∀ x, x ∈ F ↔ rtc (member_of h) self x ∧ member_states (h !!! x) = None
  | Raise e => e = RecursionDepthExceeded
  end.
Proof.
  destruct (_get_fundamental_states depth h self) as [F|e] eqn:Hself.
  - by apply (_get_fundamental_states_reachable depth).
  - by eapply _get_fundamental_states_Raise.
Qed.

Lemma update_loop_ext f g ms acc :
  (∀ m, m ∈ ms → f m = g m) → update_loop f ms acc = update_loop g ms acc.
Proof.
  revert acc. induction ms as [|m ms IH]; intros acc Hfg; simpl; [done|].
  rewrite (Hfg m) by (by left). destruct (g m) as [Fm|e]; simpl; [|done].
  apply IH. intros m' Hm'. apply Hfg. by right.
Qed.

Lemma cycle_step h self c :
  rtc (member_of h) self c → tc (member_of h) c c →
  ∃ m d, member_of h self m ∧ rtc (member_of h) m d ∧ tc (member_of h) d d.
Proof.
  intros Hreach Hcycle.
  apply rtc_inv in Hreach as [->|(m & Hm & Hreach)].
  - inversion Hcycle as [? ? Hm|? m ? Hm Hback]; subst.
    + exists c, c. by split.
    + exists m, c. split; [done|]. split; [by apply tc_rtc|done].
  - exists m, c. by split.
Qed.

Lemma _get_fundamental_states_cyclic h self c depth :
  rtc (member_of h) self c → tc (member_of h) c c →
  _get_fundamental_states depth h self = Raise RecursionDepthExceeded.
Proof.
  revert self c. induction depth as [|depth IH]; intros self c Hreach Hcycle; [done|].
  destruct (cycle_step h self c Hreach Hcycle)
    as (m & d & (ms & Hms & Hm) & Hreach2 & Hcycle2).
  destruct (_get_fundamental_states (S depth) h self) as [F|e] eqn:Hself.
  - simpl in Hself. rewrite Hms in Hself.
    apply update_loop_Return in Hself as (Fs & HFs & _).
    apply list_elem_of_lookup in Hm as [i Hi].
    destruct (Forall2_lookup_l _ _ _ _ _ HFs Hi) as (Fm & _ & Hres).
    by rewrite (IH m d Hreach2 Hcycle2) in Hres.
  - f_equal. by eapply _get_fundamental_states_Raise.
Qed.

(** X2: a state from which a cycle of member-state lists is reached never
    resolves: at every depth the recursion runs out and raises. *)
Theorem cyclic_state_never_resolves h self c depth :
  rtc (member_of h) self c → tc (member_of h) c c →
  _get_fundamental_states depth h self = Raise RecursionDepthExceeded.
Proof. apply _get_fundamental_states_cyclic. Qed.

(** The two states of [cyclic_heap] are members of each other. *)
Lemma cyclic_state_never_resolves_witness :
  _get_fundamental_states 5 cyclic_heap 0 = Raise RecursionDepthExceeded.
Proof.
  apply (cyclic_state_never_resolves cyclic_heap 0 0 5).
  - apply rtc_refl.
  - apply (tc_l _ 0 1 0); [|apply tc_once].
    + exists [1]. split; [reflexivity|]. by left.
    + exists [0]. split; [reflexivity|]. by left.
Defined.

Lemma _get_fundamental_states_local h h2 depth self :
  (∀ x, rtc (member_of h) self x →
        member_states (h !!! x) = member_states (h2 !!! x)) →
  _get_fundamental_states depth h self = _get_fundamental_states depth h2 self.
Proof.
  revert self. induction depth as [|depth IH]; intros self Hsame; simpl; [done|].
  rewrite <- (Hsame self) by done.
  destruct (member_states (h !!! self)) as [ms|] eqn:Hms; [|done].
  apply update_loop_ext. intros m Hm. apply IH. intros x Hx. apply Hsame.
  eapply rtc_l; [|exact Hx]. by exists ms.
Qed.

Lemma projection_local (f : DiscreteStateAlphabetElement → pyval) (h h2 : heap)
    (l : list addr) :
  (∀ x, x ∈ l → f (h !!! x) = f (h2 !!! x)) →
  (λ state, f (h !!! state)) <$> filter (λ state, truth (f (h !!! state)) = true) l
  = (λ state, f (h2 !!! state)) <$> filter (λ state, truth (f (h2 !!! state)) = true) l.
Proof.
  induction l as [|x l IH]; intros Hl; [done|].
  rewrite !filter_cons, <- (Hl x) by (by left).
  destruct (decide (truth (f (h !!! x)) = true)); simpl.
  - rewrite <- (Hl x) by (by left). f_equal. apply IH. intros y Hy. apply Hl. by right.
  - apply IH. intros y Hy. apply Hl. by right.
Qed.

Lemma fundamental_values_agree `{IterationOrder} h h2 depth self :
  (∀ x, rtc (member_of h) self x →
        member_states (h !!! x) = member_states (h2 !!! x)) →
  (∀ x, rtc (member_of h) self x → member_states (h !!! x) = None →
        elem_id (h !!! x) = elem_id (h2 !!! x)
        ∧ symbol (h !!! x) = symbol (h2 !!! x)
        ∧ token (h !!! x) = token (h2 !!! x)) →
  _get_fundamental_states depth h self = _get_fundamental_states depth h2 self
  ∧ ∀ attr_name, getattr_fundamental depth h self attr_name
                 = getattr_fundamental depth h2 self attr_name.
Proof.
  intros Hgraph Hleaves.
  pose proof (_get_fundamental_states_local h h2 depth self Hgraph) as Hstates.
  split; [done|]. intros attr_name.
  destruct attr_name; simpl;
    unfold _get_fundamental_ids, _get_fundamental_symbols, _get_fundamental_tokens;
    rewrite <- Hstates;
    destruct (_get_fundamental_states depth h self) as [F|err] eqn:HF; simpl; try done;
    do 2 f_equal.
  - apply list_fmap_ext. intros i x Hx.
    apply Hleaves; apply (_get_fundamental_states_reachable depth h self F HF);
      apply elem_of_iter; by eapply list_elem_of_lookup_2.
  - apply (projection_local symbol). intros x Hx%elem_of_iter.
    apply Hleaves; by apply (_get_fundamental_states_reachable depth h self F HF).
  - apply (projection_local token). intros x Hx%elem_of_iter.
    apply Hleaves; by apply (_get_fundamental_states_reachable depth h self F HF).
Qed.

(** X3: the resolution of a state reads the member-state lists of the states
    reached from it, and the identifier, symbol and token of those without a
    list, and nothing else: two heaps that agree on these give the same
    fundamental states, identifiers, symbols and tokens.  The kind and the
    label of a state, and the identifier, symbol and token of a state with
    members, play no part. *)
Theorem fundamental_values_local `{IterationOrder} h h2 depth self :
  (∀ x, rtc (member_of h) self x →
        member_states (h !!! x) = member_states (h2 !!! x)) →
  (∀ x, rtc (member_of h) self x → member_states (h !!! x) = None →
        elem_id (h !!! x) = elem_id (h2 !!! x)
        ∧ symbol (h !!! x) = symbol (h2 !!! x)
        ∧ token (h !!! x) = token (h2 !!! x)) →
  _get_fundamental_states depth h self = _get_fundamental_states depth h2 self
  ∧ ∀ attr_name, getattr_fundamental depth h self attr_name
                 = getattr_fundamental depth h2 self attr_name.
Proof. apply fundamental_values_agree. Qed.

(** The state M resolves alike in [small_heap] and in [relabelled_heap]. *)
Lemma fundamental_values_local_witness :
  _get_fundamental_states 3 small_heap 2 = _get_fundamental_states 3 relabelled_heap 2
  ∧ ∀ attr_name, getattr_fundamental 3 small_heap 2 attr_name
                 = getattr_fundamental 3 relabelled_heap 2 attr_name.
Proof.
  apply (fundamental_values_local small_heap relabelled_heap 3 2).
  - intros [|[|[|x]]] _; reflexivity.
  - intros [|[|[|x]]] _ Hleaf; try discriminate Hleaf; repeat split; reflexivity.
Defined.

Lemma closed_reachable h self x :
  closed h → self < length h → rtc (member_of h) self x → x < length h.
Proof.
  intros Hclosed Hself Hreach. induction Hreach as [|self m x Hm _ IH]; [done|].
  apply IH. by eapply Hclosed.
Qed.

(** X4: in a heap without dangling references, building a new state leaves
    the fundamental states, identifiers, symbols and tokens of every state
    that was there as they were. *)
Theorem new_keeps_fundamental_values `{IterationOrder} h e depth self :
  closed h → self < length h →
  _get_fundamental_states depth (new h e).1 self = _get_fundamental_states depth h self
  ∧ ∀ attr_name, getattr_fundamental depth (new h e).1 self attr_name
                 = getattr_fundamental depth h self attr_name.
Proof.
  intros Hclosed Hself.
  assert (∀ x, rtc (member_of h) self x → h !!! x = (new h e).1 !!! x) as Hsame.
  { intros x Hx. simpl. symmetry. apply lookup_total_app_l. by eapply closed_reachable. }
  destruct (fundamental_values_agree h (new h e).1 depth self) as [-> Hattr].
  - intros x Hx. by rewrite (Hsame x Hx).
  - intros x Hx _. by rewrite (Hsame x Hx).
  - split; [done|]. intros attr_name. by rewrite Hattr.
Qed.

Lemma small_heap_closed : closed small_heap.
Proof.
  intros [|[|[|self]]] m Hself (ms & Hms & Hm); simpl in *;
    try discriminate Hms.
  injection Hms as <-. apply elem_of_cons in Hm as [->|Hm]; [lia|].
  apply elem_of_cons in Hm as [->|Hm]; [lia|]. by apply elem_of_nil in Hm.
Qed.

(** The state M of [small_heap] after a fourth state is built. *)
Lemma new_keeps_fundamental_values_witness :
  _get_fundamental_states 3 (new small_heap (ambiguous "N" [0; 1; 2])).1 2
  = _get_fundamental_states 3 small_heap 2
  ∧ ∀ attr_name,
      getattr_fundamental 3 (new small_heap (ambiguous "N" [0; 1; 2])).1 2 attr_name
      = getattr_fundamental 3 small_heap 2 attr_name.
Proof.
  apply (new_keeps_fundamental_values small_heap (ambiguous "N" [0; 1; 2]) 3 2).
  - exact small_heap_closed.
  - simpl. lia.
Defined.

Lemma update_loop_Raise f ms acc e :
  update_loop f ms acc = Raise e → ∃ m, m ∈ ms ∧ f m = Raise e.
Proof.
  revert acc. induction ms as [|m ms IH]; intros acc; simpl; [done|].
  intros [Hm|(Fm & _ & Hrest)]%bind_Raise.
  - exists m. split; [by left|done].
  - destruct (IH _ Hrest) as (m' & Hm' & Hraise). exists m'. split; [by right|done].
Qed.

Lemma raise_chain h n self e :
  _get_fundamental_states (S n) h self = Raise e →
  ∃ l, chain h (self :: l) ∧ length l = n.
Proof.
  revert self e. induction n as [|n IH]; intros self e; simpl.
  - destruct (member_states (h !!! self)) as [ms|] eqn:Hms; [|done].
    intros _. exists []. split; [|done]. constructor. by rewrite Hms.
  - destruct (member_states (h !!! self)) as [ms|] eqn:Hms; [|done].
    intros (m & Hm & Hraise)%update_loop_Raise.
    destruct (IH m e Hraise) as (l & Hchain & Hlen).
    exists (m :: l). split; [|by rewrite <- Hlen].
    constructor; [|done]. by exists ms.
Qed.

Lemma chain_in_heap h l x : chain h l → x ∈ l → x < length h.
Proof.
  assert (∀ a, is_Some (member_states (h !!! a)) → a < length h) as Hsome.
  { intros a Ha. destruct (decide (a < length h)) as [|Hge]; [done|].
    rewrite list_lookup_total_alt, lookup_ge_None_2 in Ha by lia.
    by destruct Ha as [ms Hms]. }
  induction 1 as [a Ha|a m l Hm _ IH]; intros Hx.
  - apply list_elem_of_singleton in Hx as ->. by apply Hsome.
  - apply elem_of_cons in Hx as [->|Hx]; [|by apply IH].
    destruct Hm as (ms & Hms & _). apply Hsome. by rewrite Hms.
Qed.

Lemma chain_tc h a l x : chain h (a :: l) → x ∈ l → tc (member_of h) a x.
Proof.
  revert a. induction l as [|m l IH]; intros a Hchain Hx; [by apply elem_of_nil in Hx|].
  inversion Hchain as [|? ? ? Hm Hrest]; subst.
  apply elem_of_cons in Hx as [->|Hx]; [by apply tc_once|].
  eapply tc_l; [exact Hm|]. by apply IH.
Qed.

Lemma chain_suffix h l1 a l2 : chain h (l1 ++ a :: l2) → chain h (a :: l2).
Proof.
  induction l1 as [|b l1 IH]; simpl; [done|].
  intros Hchain. apply IH.
  destruct (l1 ++ a :: l2) as [|m rest] eqn:Hrest; [by destruct l1|].
  by inversion Hchain.
Qed.

Lemma duplicate_split (l : list addr) :
  ¬ NoDup l → ∃ l1 x l2 l3, l = l1 ++ x :: l2 ++ x :: l3.
Proof.
  induction l as [|x l IH]; intros Hdup; [by destruct Hdup; constructor|].
  destruct (decide (x ∈ l)) as [Hin|Hnotin].
  - apply list_elem_of_split in Hin as (l2 & l3 & ->). by exists [], x, l2, l3.
  - destruct IH as (l1 & y & l2 & l3 & ->).
    { intros Hnodup. apply Hdup. by constructor. }
    by exists (x :: l1), y, l2, l3.
Qed.

Lemma crowded_duplicate (l : list addr) n :
  (∀ x, x ∈ l → x < n) → n < length l → ¬ NoDup l.
Proof.
  intros Hbound Hlen Hnodup.
  assert (l ⊆+ seq 0 n) as Hsub.
  { apply NoDup_submseteq; [done|]. intros x Hx. apply elem_of_seq.
    specialize (Hbound x Hx). lia. }
  apply submseteq_length in Hsub. rewrite length_seq in Hsub. lia.
Qed.

(** X14: the resolution needs at most one nested call more than there are
    objects in the heap.  Either the state resolves, with one and the same
    result, at every depth above the number of objects, or a cycle of
    member-state lists is reached from it and it resolves at no depth at
    all: every call ends in the exhausted recursion depth. *)
Theorem fundamental_states_depth_bound h self :
  (∃ F, ∀ depth, length h < depth → _get_fundamental_states depth h self = Return F)
  ∨ ((∃ c, rtc (member_of h) self c ∧ tc (member_of h) c c)
     ∧ ∀ depth, _get_fundamental_states depth h self = Raise RecursionDepthExceeded).
Proof.
  destruct (_get_fundamental_states (S (length h)) h self) as [F|e] eqn:Hself.
  - left. exists F. intros depth Hlt.
    eapply _get_fundamental_states_mono; [exact Hself|lia].
  - right.
    destruct (raise_chain h (length h) self e Hself) as (l & Hchain & Hlen).
    destruct (duplicate_split (self :: l)) as (l1 & x & l2 & l3 & Hsplit).
    { apply (crowded_duplicate _ (length h)).
      - intros y Hy. by eapply chain_in_heap.
      - simpl. lia. }
    rewrite Hsplit in Hchain.
    pose proof (chain_suffix h l1 x (l2 ++ x :: l3) Hchain) as Hcycle.
    assert (rtc (member_of h) self x) as Hreach.
    { destruct l1 as [|a l1]; simpl in Hsplit; injection Hsplit as -> ->; [done|].
      apply tc_rtc. eapply chain_tc; [exact Hchain|].
      apply elem_of_app. right. by left. }
    assert (tc (member_of h) x x) as Hloop.
    { eapply chain_tc; [exact Hcycle|]. apply elem_of_app. right. by left. }
    split; [by exists x|]. intros depth.
    by apply (_get_fundamental_states_cyclic h self x).
Qed.

Lemma get_state_loop_unique h attr_name value l state :
  state ∈ l → getattr (h !!! state) attr_name = value →
  (∀ other, other ∈ l → getattr (h !!! other) attr_name = value → other = state) →
  get_state_loop h attr_name value l = Return state.
Proof.
  intros Hin Hvalue Hunique. rewrite get_state_loop_filter.
  destruct (filter _ l) as [|found rest] eqn:Hfilter.
  - by destruct (filter_nil_not_elem_of _ _ state Hfilter Hvalue).
  - apply filter_head_split in Hfilter as (before & after & -> & Hfound & _).
    f_equal. apply Hunique; [|done]. apply elem_of_app. right. by left.
Qed.

Lemma get_state_sole `{IterationOrder} h self attr_name value state :
  state ∈ states self →
  getattr (h !!! state) attr_name = value →
  (∀ other, other ∈ states self →
            getattr (h !!! other) attr_name = value → other = state) →
  get_state h self attr_name value = Return state.
Proof.
  intros Hin Hvalue Hunique. apply get_state_loop_unique; [by apply elem_of_iter|done|].
  intros other Hother%elem_of_iter. by apply Hunique.
Qed.

(** X5: when exactly one state of the alphabet has the value of the
    attribute, [get_state] returns that state in every iteration order. *)
Theorem get_state_unique `{IterationOrder} h self attr_name value state :
  state ∈ states self →
  getattr (h !!! state) attr_name = value →
  (∀ other, other ∈ states self →
            getattr (h !!! other) attr_name = value → other = state) →
  get_state h self attr_name value = Return state.
Proof. apply get_state_sole. Qed.

Lemma elem_of_small_alphabet state :
  state ∈ states small_alphabet ↔ state = 0 ∨ state = 1 ∨ state = 2.
Proof. simpl. rewrite !elem_of_union, !elem_of_singleton. tauto. Qed.

(** The state with the symbol C in [small_alphabet]. *)
Lemma get_state_unique_witness :
  get_state small_heap small_alphabet attr_symbol (sym "C") = Return 1.
Proof.
  apply (get_state_unique small_heap small_alphabet attr_symbol (sym "C") 1).
  - apply elem_of_small_alphabet. tauto.
  - reflexivity.
  - intros other [->|[->| ->]]%elem_of_small_alphabet Hsymbol;
      [discriminate Hsymbol|reflexivity|discriminate Hsymbol].
Defined.

Lemma front_order_iter first X :
  first ∈ X → @iter (front_order first) X = first :: elements (X ∖ {[ first ]}).
Proof. intros Hin. simpl. by rewrite decide_True. Qed.

(** X6: when two states of the alphabet have the value of the attribute,
    [get_state] returns the one or the other according to the iteration
    order of the set: there is an order for each. *)
Theorem get_state_order_dependent h self attr_name value a b :
  a ∈ states self → b ∈ states self → a ≠ b →
  getattr (h !!! a) attr_name = value →
  getattr (h !!! b) attr_name = value →
  @get_state (front_order a) h self attr_name value = Return a
  ∧ @get_state (front_order b) h self attr_name value = Return b
  ∧ @get_state (front_order a) h self attr_name value
    ≠ @get_state (front_order b) h self attr_name value.
Proof.
  intros Ha Hb Hab Hva Hvb.
  assert (∀ x, x ∈ states self → getattr (h !!! x) attr_name = value →
               @get_state (front_order x) h self attr_name value = Return x) as Hfront.
  { intros x Hx Hvx. unfold get_state. rewrite front_order_iter by done. simpl.
    by rewrite bool_decide_eq_true_2. }
  rewrite !Hfront by done. split; [done|]. split; [done|]. by intros [= ->].
Qed.

Lemma elem_of_same_id_alphabet state :
  state ∈ states same_id_alphabet ↔ state = 0 ∨ state = 1.
Proof. simpl. rewrite !elem_of_union, !elem_of_singleton. tauto. Qed.

(** The two states of [same_id_heap] have the identifier s1. *)
Lemma get_state_order_dependent_witness :
  @get_state (front_order 0) same_id_heap same_id_alphabet attr_elem_id (sym "s1")
  = Return 0
  ∧ @get_state (front_order 1) same_id_heap same_id_alphabet attr_elem_id (sym "s1")
    = Return 1
  ∧ @get_state (front_order 0) same_id_heap same_id_alphabet attr_elem_id (sym "s1")
    ≠ @get_state (front_order 1) same_id_heap same_id_alphabet attr_elem_id (sym "s1").
Proof.
  apply (get_state_order_dependent same_id_heap same_id_alphabet attr_elem_id
           (sym "s1") 0 1).
  - apply elem_of_same_id_alphabet. tauto.
  - apply elem_of_same_id_alphabet. tauto.
  - lia.
  - reflexivity.
  - reflexivity.
Defined.

(** X7: when two states of the alphabet have exactly the fundamental
    identifiers (symbols, tokens) asked for, [match_state] returns the one or
    the other according to the iteration order of the set. *)
Theorem match_state_order_dependent depth h self sel values a b :
  a ∈ states self → b ∈ states self → a ≠ b →
  @getattr_fundamental canonical_order depth h a (selector_fundamental sel)
  = Return (as_value_set values) →
  @getattr_fundamental canonical_order depth h b (selector_fundamental sel)
  = Return (as_value_set values) →
  supply (@match_state (front_order a) depth h self) sel values = Return (Some a)
  ∧ supply (@match_state (front_order b) depth h self) sel values = Return (Some b)
  ∧ supply (@match_state (front_order a) depth h self) sel values
    ≠ supply (@match_state (front_order b) depth h self) sel values.
Proof.
  intros Ha Hb Hab Hva Hvb.
  assert (∀ x, x ∈ states self →
    @getattr_fundamental canonical_order depth h x (selector_fundamental sel)
    = Return (as_value_set values) →
    supply (@match_state (front_order x) depth h self) sel values = Return (Some x))
    as Hfront.
  { intros x Hx Hvx.
    assert (@match_state_loop (front_order x) depth h (selector_fundamental sel)
              (as_value_set values) (@iter (front_order x) (states self))
            = Return (Some x)) as Hloop.
    { rewrite front_order_iter by done. simpl.
      rewrite getattr_fundamental_any_order, Hvx. simpl.
      by rewrite bool_decide_eq_true_2. }
    by destruct sel. }
  rewrite !Hfront by done. split; [done|]. split; [done|]. by intros [= ->].
Qed.

(** The two states of [same_id_heap] have no token: both match the empty
    list of tokens. *)
Lemma match_state_order_dependent_witness :
  supply (@match_state (front_order 0) 1 same_id_heap same_id_alphabet)
    by_tokens (PyList []) = Return (Some 0)
  ∧ supply (@match_state (front_order 1) 1 same_id_heap same_id_alphabet)
      by_tokens (PyList []) = Return (Some 1)
  ∧ supply (@match_state (front_order 0) 1 same_id_heap same_id_alphabet)
      by_tokens (PyList [])
    ≠ supply (@match_state (front_order 1) 1 same_id_heap same_id_alphabet)
        by_tokens (PyList []).
Proof.
  apply (match_state_order_dependent 1 same_id_heap same_id_alphabet by_tokens
           (PyList []) 0 1).
  - apply elem_of_same_id_alphabet. tauto.
  - apply elem_of_same_id_alphabet. tauto.
  - lia.
  - reflexivity.
  - reflexivity.
Defined.

(** X8: when the fundamental values of every state of the alphabet resolve
    and exactly one state has exactly the values asked for, [match_state]
    returns that state in every iteration order. *)
Theorem match_state_unique `{IterationOrder} depth h self sel values state :
  (∀ other, other ∈ states self →
     ∃ V, getattr_fundamental depth h other (selector_fundamental sel) = Return V) →
  state ∈ states self →
  getattr_fundamental depth h state (selector_fundamental sel)
  = Return (as_value_set values) →
  (∀ other, other ∈ states self →
     getattr_fundamental depth h other (selector_fundamental sel)
     = Return (as_value_set values) → other = state) →
  supply (match_state depth h self) sel values = Return (Some state).
Proof.
  intros Hall Hin Hstate Hunique.
  destruct (match_state_loop_first depth h (selector_fundamental sel)
              (as_value_set values) (iter (states self))) as (r & Hr & Hspec).
  { intros other Hother%elem_of_iter. by apply Hall. }
  assert (r = Some state) as ->.
  { destruct r as [found|].
    - destruct Hspec as (before & after & Hsplit & Hfound & _). f_equal.
      apply Hunique; [|done]. apply elem_of_iter. rewrite Hsplit.
      apply elem_of_app. right. by left.
    - destruct (Hspec state); [by apply elem_of_iter|done]. }
  by destruct sel.
Qed.

(** The state M is the only state of [small_alphabet] with the fundamental
    symbols A and C. *)
Lemma match_state_unique_witness :
  supply (match_state 3 small_heap small_alphabet) by_symbols (PyStr "AC")
  = Return (Some 2).
Proof.
  apply (match_state_unique 3 small_heap small_alphabet by_symbols (PyStr "AC") 2).
  - intros other [->|[->| ->]]%elem_of_small_alphabet; eexists; reflexivity.
  - apply elem_of_small_alphabet. tauto.
  - match goal with |- ?P => apply (bool_decide_eq_true_1 P) end.
    vm_compute. reflexivity.
  - intros other [->|[->| ->]]%elem_of_small_alphabet Hvalues; [| |reflexivity];
      exfalso; revert Hvalues;
      match goal with |- ?P → False => apply (bool_decide_eq_false_1 P) end;
      vm_compute; reflexivity.
Defined.

Lemma chars_as_list s : as_value_set (PyStr s) = as_value_set (PyList (chars s)).
Proof. done. Qed.

(** X9: [match_state] takes its values as a set: two lists with the same
    elements, in any order and with any repetitions, give the same result; a
    string gives the result of the list of its characters; and a set gives
    the result of a list of its elements. *)
Theorem match_state_values_as_set `{IterationOrder} depth h self sel :
  (∀ l l2, (∀ v, v ∈ l ↔ v ∈ l2) →
     supply (match_state depth h self) sel (PyList l)
     = supply (match_state depth h self) sel (PyList l2))
  ∧ (∀ s, supply (match_state depth h self) sel (PyStr s)
          = supply (match_state depth h self) sel (PyList (chars s)))
  ∧ (∀ l, supply (match_state depth h self) sel (PySet (list_to_set l))
          = supply (match_state depth h self) sel (PyList l)).
Proof.
  split; [|split].
  - intros l l2 Hsame.
    assert (as_value_set (PyList l) = as_value_set (PyList l2)) as Hset.
    { simpl. apply set_eq. intros v. by rewrite !elem_of_list_to_set. }
    destruct sel; simpl; unfold match_state; simpl in *; by rewrite Hset.
  - intros s. by destruct sel.
  - intros l. by destruct sel.
Qed.

(** X10: after a state is inserted, [get_state] with a value of its that no
    other state of the alphabet has returns it; and a value that only one
    state had, and that the new state does not have, still gives that state. *)
Theorem add_then_get_state `{IterationOrder} h self state attr_name value :
  getattr (h !!! state) attr_name = value →
  (∀ other, other ∈ states self →
            getattr (h !!! other) attr_name = value → other = state) →
  ∃ self2, add self state = Return self2
    ∧ get_state h self2 attr_name value = Return state
    ∧ ∀ found v, v ≠ value → found ∈ states self →
        getattr (h !!! found) attr_name = v →
        (∀ other, other ∈ states self →
                  getattr (h !!! other) attr_name = v → other = found) →
        get_state h self2 attr_name v = Return found.
Proof.
  intros Hvalue Hunique. eexists. split; [reflexivity|]. split.
  - apply get_state_sole; simpl; [|done|].
    + apply elem_of_union. left. by apply elem_of_singleton.
    + intros other [->%elem_of_singleton|Hother]%elem_of_union; [done|].
      by apply Hunique.
  - intros found v Hv Hfound Hfv Hfunique. apply get_state_sole; simpl; [|done|].
    + apply elem_of_union. by right.
    + intros other [->%elem_of_singleton|Hother]%elem_of_union; [|by apply Hfunique].
      congruence.
Qed.

Lemma elem_of_singles_alphabet state :
  state ∈ states singles_alphabet ↔ state = 0 ∨ state = 1.
Proof. simpl. rewrite !elem_of_union, !elem_of_singleton. tauto. Qed.

(** The state M is inserted in the alphabet of the states A and C. *)
Lemma add_then_get_state_witness :
  ∃ self2, add singles_alphabet 2 = Return self2
    ∧ get_state small_heap self2 attr_symbol (sym "M") = Return 2
    ∧ ∀ found v, v ≠ sym "M" → found ∈ states singles_alphabet →
        getattr (small_heap !!! found) attr_symbol = v →
        (∀ other, other ∈ states singles_alphabet →
                  getattr (small_heap !!! other) attr_symbol = v → other = found) →
        get_state small_heap self2 attr_symbol v = Return found.
Proof.
  apply (add_then_get_state small_heap singles_alphabet 2 attr_symbol (sym "M")).
  - reflexivity.
  - intros other [->| ->]%elem_of_singles_alphabet Hsymbol; discriminate Hsymbol.
Defined.

Lemma iter_empty `{IterationOrder} : iter ∅ = [].
Proof. apply Permutation_nil_r. by rewrite iter_elements, elements_empty. Qed.

(** X11: on an alphabet without states [get_state] raises the "not defined"
    exception for every value, [get_states] raises it for the first value of
    a list that is not empty, and [match_state] returns [None] for every
    values, at every depth; [get_states] with an empty list returns the empty
    list on every alphabet. *)
Theorem empty_alphabet_lookups `{IterationOrder} depth h elem_id label :
  (∀ attr_name value,
      get_state h (DiscreteStateAlphabetSet__init__ elem_id label) attr_name value
      = Raise (StateNotDefined attr_name value))
  ∧ (∀ sel value rest,
      supply (get_states h (DiscreteStateAlphabetSet__init__ elem_id label)) sel
        (value :: rest)
      = Raise (StateNotDefined (selector_attr sel) value))
  ∧ (∀ self sel, supply (get_states h self) sel [] = Return [])
  ∧ (∀ sel values,
      supply (match_state depth h (DiscreteStateAlphabetSet__init__ elem_id label))
        sel values
      = Return None).
Proof.
  assert (∀ attr_name value,
      get_state h (DiscreteStateAlphabetSet__init__ elem_id label) attr_name value
      = Raise (StateNotDefined attr_name value)) as Hget.
  { intros attr_name value. unfold get_state. simpl. by rewrite iter_empty. }
  split; [done|]. split; [|split].
  - intros sel value rest. destruct sel; simpl; unfold get_states; simpl; by rewrite Hget.
  - intros self sel. by destruct sel.
  - intros sel values. destruct sel; simpl; unfold match_state; simpl; by rewrite iter_empty.
Qed.

Lemma dna_fundamental_symbols `{IterationOrder} depth state :
  state < 17 → 2 ≤ depth →
  _get_fundamental_symbols depth dna_heap state = Return (dna_symbols state).
Proof.
  intros Hstate Hle.
  change (getattr_fundamental depth dna_heap state attr_fundamental_symbols
          = Return (dna_symbols state)).
  rewrite getattr_fundamental_any_order.
  apply (getattr_fundamental_mono 2 depth); [|done].
  do 17 (destruct state as [|state]; [reflexivity|]). lia.
Qed.

(** X12: in the alphabet of the seventeen DNA states every state is found
    back, in every iteration order: [get_state] with the symbol of a state
    returns that state, and [match_state] with the fundamental symbols of a
    state returns that state. *)
Theorem dna_lookup_round_trip `{IterationOrder} elem_id label state :
  state ∈ dna_states →
  let dna := AlphabetSet elem_id label dna_states in
  get_state dna_heap dna attr_symbol (symbol (dna_heap !!! state)) = Return state
  ∧ ∀ depth, 2 ≤ depth →
      ∃ V, _get_fundamental_symbols depth dna_heap state = Return V
        ∧ match_state depth dna_heap dna None (Some (PySet V)) None
          = Return (Some state).
Proof.
  intros Hstate dna. unfold dna.
  apply elem_of_list_to_set, elem_of_seq in Hstate as [_ Hstate]. simpl in Hstate.
  split.
  - do 17 (destruct state as [|state];
      [rewrite get_state_any_order by (vm_compute; reflexivity);
       vm_compute; reflexivity|]).
    lia.
  - intros depth Hle. exists (dna_symbols state).
    split; [by apply dna_fundamental_symbols|].
    do 17 (destruct state as [|state];
      [rewrite dna_match_state by (done || (vm_compute; reflexivity));
       vm_compute; reflexivity|]).
    lia.
Qed.

(** The state N is found back by its symbol and by its fundamental symbols,
    in the canonical order. *)
Lemma dna_lookup_round_trip_witness :
  get_state dna_heap (AlphabetSet None None dna_states) attr_symbol
    (symbol (dna_heap !!! 6)) = Return 6
  ∧ ∀ depth, 2 ≤ depth →
      ∃ V, _get_fundamental_symbols depth dna_heap 6 = Return V
        ∧ match_state depth dna_heap (AlphabetSet None None dna_states) None
            (Some (PySet V)) None
          = Return (Some 6).
Proof.
  apply (dna_lookup_round_trip (H := canonical_order) None None 6).
  apply elem_of_list_to_set, elem_of_seq. simpl. lia.
Defined.

(** X13: in the alphabet of the seventeen DNA states, [match_state] with a
    set of symbols among A, C, G, T and the gap returns a state exactly when
    the set is a non-empty set of A, C, G, T, or the gap alone, or all five
    symbols; it returns [None] for the empty set and for the gap with one,
    two or three of A, C, G, T. *)
Theorem dna_nucleotide_sets `{IterationOrder} elem_id label a c g t gap depth :
  2 ≤ depth →
  ∃ r, match_state depth dna_heap (AlphabetSet elem_id label dna_states) None
         (Some (PyList (nucleotides a c g t gap))) None = Return r
    ∧ (is_Some r ↔
       (if gap then (a && c && g && t) || negb (a || c || g || t)
        else a || c || g || t) = true).
Proof.
  intros Hle.
  destruct a, c, g, t, gap;
    rewrite dna_match_state by (done || (vm_compute; reflexivity));
    eexists; (split; [by vm_compute|]); simpl;
    (split; [try done; by intros [? [=]]|try done; by eexists]).
Qed.

(** The gap with the symbol A matches no state. *)
Lemma dna_nucleotide_sets_witness :
  ∃ r, match_state 2 dna_heap (AlphabetSet None None dna_states) None
         (Some (PyList (nucleotides true false false false true))) None = Return r
    ∧ (is_Some r ↔ false = true).
Proof.
  apply (dna_nucleotide_sets (H := canonical_order) None None
           true false false false true 2).
  lia.
Defined.
